(** * Symbolic expressions: evaluation, differentiation and printing

    A shallow embedding of [main.cpp]: expression nodes held through
    [std::shared_ptr], their three virtual operations [eval], [deriv] and
    [to_string], and the free functions that build nodes.

    Two readings of the program are given.  The first treats a pointer as
    the tree it leads to (a null pointer being the only thing a tree cannot
    express, it is kept); the second keeps the nodes in a store and lets the
    operations allocate in it, so that sharing and the absence of writes can
    be stated.  The second is proved to compute what the first does. *)

From Stdlib Require Import ZArith List String Ascii Bool Lia.
From Stdlib Require Import Floats.PrimFloat Floats.SpecFloat Floats.FloatOps.
From Stdlib Require Import DecimalString.
Import ListNotations.

Local Open Scope string_scope.

(** ** What a call does

    A call either returns, or leaves by throwing [std::runtime_error] with
    its [what()] text, or executes an operation the language gives no
    meaning to (here always: a member call through a null [shared_ptr]). *)

Inductive outcome (A : Type) : Type :=
| Returns (a : A)
| Throws (what : string)
| Undefined.

Arguments Returns {A} a.
Arguments Throws {A} what.
Arguments Undefined {A}.

Definition bind {A B : Type} (o : outcome A) (k : A -> outcome B) : outcome B :=
  match o with
  | Returns a => k a
  | Throws what => Throws what
  | Undefined => Undefined
  end.

(** Two operands of one call or of one [+] chain are evaluated in an order
    the language leaves open.  If either evaluation is undefined, some
    permitted order reaches it, and then the whole call is undefined; an
    exception wins over a value.  When both throw, the left one is
    reported (no call of the program can throw two different texts from
    its two operands). *)
Definition both {A B : Type} (l : outcome A) (r : outcome B) : outcome (A * B) :=
  match l, r with
  | Undefined, _ | _, Undefined => Undefined
  | Throws what, _ => Throws what
  | _, Throws what => Throws what
  | Returns a, Returns b => Returns (a, b)
  end.

Declare Scope outcome_scope.
Delimit Scope outcome_scope with outcome.
Notation "x <- o ;; k" := (bind o (fun x => k))
  (at level 61, o at next level, right associativity) : outcome_scope.
Notation "' ( x , y ) <- o ;; k" := (bind o (fun p => let '(x, y) := p in k))
  (at level 61, x name, y name, o at next level, right associativity) : outcome_scope.

(** ** [std::to_string(double)]

    The standard defines it as the text [sprintf] produces for ["%f"]: the
    value in decimal with six digits after the point, the exact value
    rounded to nearest with ties to even; infinities print as [inf].  A
    primitive float has a single NaN, so the sign some C libraries print
    in front of [nan] is not represented. *)

Definition digits (n : Z) : string :=
  NilZero.string_of_uint (N.to_uint (Z.to_N n)).

(** [m * 2^e * 10^6] rounded to an integer, ties to even. *)
Definition scaled_micro (m : positive) (e : Z) : Z :=
  let num := (Z.pos m * 1000000)%Z in
  if (0 <=? e)%Z then (num * 2 ^ e)%Z
  else
    let den := (2 ^ (- e))%Z in
    let q := (num / den)%Z in
    let r := (num mod den)%Z in
    match (2 * r ?= den)%Z with
    | Lt => q
    | Gt => (q + 1)%Z
    | Eq => if Z.even q then q else (q + 1)%Z
    end.

Definition fixed6 (micro : Z) : string :=
  digits (micro / 1000000)
  ++ "." ++ substring 1 6 (digits (1000000 + micro mod 1000000)).

Definition sign_text (s : bool) : string := if s then "-" else "".

Definition std_to_string (value : float) : string :=
  match Prim2SF value with
  | S754_zero s => sign_text s ++ "0.000000"
  | S754_infinity s => sign_text s ++ "inf"
  | S754_nan => "nan"
  | S754_finite s m e => sign_text s ++ fixed6 (scaled_micro m e)
  end.

(** ** Nodes *)

(** The function objects of namespace [Fncs], the template arguments of
    [UnaryOperation]. *)
Module Fncs.
Inductive t : Set := Neg | Exp | Log | Sin | Cos.
End Fncs.

(** The function objects of [<functional>] that [BinaryOperation] is
    instantiated with. *)
Inductive std_functional : Set := plus | minus | multiplies | divides.

(** [Expression] is the abstract base; its four concrete classes are the
    constructors ([Variable_] for class [Variable], a reserved word here).
    An [ExpressionPtr] is a [std::shared_ptr<Expression>]:
    empty, or sharing ownership of a node. *)
Inductive Expression : Type :=
| Numeric (value : float)
| Variable_ (variable : string)
| UnaryOperation (Fnc : Fncs.t) (operand : ExpressionPtr)
| BinaryOperation (Fnc : std_functional) (first second : ExpressionPtr)
with ExpressionPtr : Type :=
| nullptr
| make_shared (e : Expression).

Scheme Expression_mut := Induction for Expression Sort Prop
  with ExpressionPtr_mut := Induction for ExpressionPtr Sort Prop.
Combined Scheme Expression_ExpressionPtr_ind from Expression_mut, ExpressionPtr_mut.

Abbreviation Neg := (UnaryOperation Fncs.Neg).
Abbreviation Exp := (UnaryOperation Fncs.Exp).
Abbreviation Log := (UnaryOperation Fncs.Log).
Abbreviation Sin := (UnaryOperation Fncs.Sin).
Abbreviation Cos := (UnaryOperation Fncs.Cos).

Abbreviation Sum := (BinaryOperation plus).
Abbreviation Difference := (BinaryOperation minus).
Abbreviation Product := (BinaryOperation multiplies).
Abbreviation Division := (BinaryOperation divides).

Definition numeric (x : float) : ExpressionPtr := make_shared (Numeric x).
Definition variable (s : string) : ExpressionPtr := make_shared (Variable_ s).

Definition neg (x : ExpressionPtr) : ExpressionPtr := make_shared (Neg x).
Definition exp (x : ExpressionPtr) : ExpressionPtr := make_shared (Exp x).
Definition log (x : ExpressionPtr) : ExpressionPtr := make_shared (Log x).
Definition sin (x : ExpressionPtr) : ExpressionPtr := make_shared (Sin x).
Definition cos (x : ExpressionPtr) : ExpressionPtr := make_shared (Cos x).

Definition sum (a b : ExpressionPtr) : ExpressionPtr := make_shared (Sum a b).
Definition difference (a b : ExpressionPtr) : ExpressionPtr := make_shared (Difference a b).
Definition product (a b : ExpressionPtr) : ExpressionPtr := make_shared (Product a b).
Definition division (a b : ExpressionPtr) : ExpressionPtr := make_shared (Division a b).

(** ** [eval] *)

(** [exp], [log], [sin] and [cos] of [<cmath>] on [double].  Primitive
    floats have no such operations, so they are an interface the
    development is parametric in. *)
Class cmath : Type := {
  cmath_exp : float -> float;
  cmath_log : float -> float;
  cmath_sin : float -> float;
  cmath_cos : float -> float
}.

Section Eval.

Context {libm : cmath}.

(** [Fnc()(x)] for the five unary function objects. *)
Definition call1 (Fnc : Fncs.t) (x : float) : float :=
  match Fnc with
  | Fncs.Neg => PrimFloat.opp x
  | Fncs.Exp => cmath_exp x
  | Fncs.Log => cmath_log x
  | Fncs.Sin => cmath_sin x
  | Fncs.Cos => cmath_cos x
  end.

(** [Fnc()(x, y)] for the four binary function objects. *)
Definition call2 (Fnc : std_functional) (x y : float) : float :=
  match Fnc with
  | plus => PrimFloat.add x y
  | minus => PrimFloat.sub x y
  | multiplies => PrimFloat.mul x y
  | divides => PrimFloat.div x y
  end.

(** [eval e] is [e.eval()] on a node; [arrow_eval p] is [p->eval()]. *)
Fixpoint eval (e : Expression) : outcome float :=
  match e with
  | Numeric value => Returns value
  | Variable_ _ => Throws "Error trying to evaluate a variable."
  | UnaryOperation Fnc operand =>
      (x <- arrow_eval operand ;; Returns (call1 Fnc x))%outcome
  | BinaryOperation Fnc first second =>
      ('(x, y) <- both (arrow_eval first) (arrow_eval second) ;;
       Returns (call2 Fnc x y))%outcome
  end
with arrow_eval (p : ExpressionPtr) : outcome float :=
  match p with
  | nullptr => Undefined
  | make_shared e => eval e
  end.

End Eval.

(** ** [deriv] *)

(** [deriv e s] is [e.deriv(s)]; [arrow_deriv p s] is [p->deriv(s)].
    [Numeric::deriv] is [return 0;], which converts the null pointer
    constant to an empty [shared_ptr]. *)
Fixpoint deriv (e : Expression) (s : string) : outcome ExpressionPtr :=
  match e with
  | Numeric _ => Returns nullptr
  | Variable_ variable_ =>
      if String.eqb s variable_ then Returns (numeric 1) else Returns (numeric 0)
  | UnaryOperation Fncs.Neg operand =>
      (d <- arrow_deriv operand s ;; Returns (neg d))%outcome
  | UnaryOperation Fncs.Exp operand =>
      (d <- arrow_deriv operand s ;; Returns (sum (exp operand) d))%outcome
  | UnaryOperation Fncs.Log operand =>
      (d <- arrow_deriv operand s ;; Returns (division d operand))%outcome
  | UnaryOperation Fncs.Sin operand =>
      (d <- arrow_deriv operand s ;; Returns (product d (cos operand)))%outcome
  | UnaryOperation Fncs.Cos operand =>
      (d <- arrow_deriv operand s ;; Returns (product d (neg (sin operand))))%outcome
  | BinaryOperation _ _ _ => Throws "bar"
  end
with arrow_deriv (p : ExpressionPtr) (s : string) : outcome ExpressionPtr :=
  match p with
  | nullptr => Undefined
  | make_shared e => deriv e s
  end.

(** ** [to_string] *)

(** The text between the operands of each [BinaryOperation::to_string]. *)
Definition infix_text (Fnc : std_functional) : string :=
  match Fnc with
  | plus => " + "
  | minus => " - "
  | multiplies => " * "
  | divides => " / "
  end.

Fixpoint to_string (e : Expression) : outcome string :=
  match e with
  | Numeric value => Returns (std_to_string value)
  | Variable_ variable_ => Returns variable_
  | UnaryOperation Fncs.Neg operand =>
      (t <- arrow_to_string operand ;; Returns ("-" ++ t))%outcome
  | UnaryOperation Fncs.Exp operand =>
      (t <- arrow_to_string operand ;; Returns ("exp(" ++ t ++ ")"))%outcome
  | UnaryOperation Fncs.Log operand =>
      (t <- arrow_to_string operand ;; Returns ("log(" ++ t ++ ")"))%outcome
  | UnaryOperation Fncs.Sin operand =>
      (t <- arrow_to_string operand ;; Returns ("sin(" ++ t ++ ")"))%outcome
  | UnaryOperation Fncs.Cos operand =>
      (t <- arrow_to_string operand ;; Returns ("cos(" ++ t ++ ")"))%outcome
  | BinaryOperation Fnc first second =>
      ('(l, r) <- both (arrow_to_string first) (arrow_to_string second) ;;
       Returns ("(" ++ l ++ infix_text Fnc ++ r ++ ")"))%outcome
  end
with arrow_to_string (p : ExpressionPtr) : outcome string :=
  match p with
  | nullptr => Undefined
  | make_shared e => to_string e
  end.


(** A library in which every function answers NaN: enough to run the
    program on inputs that call none of them. *)
Definition cmath_nan : cmath :=
  {| cmath_exp := fun _ => nan; cmath_log := fun _ => nan;
     cmath_sin := fun _ => nan; cmath_cos := fun _ => nan |}.

(** ** Shapes of trees used in the statements *)

(** The tree obtained by wrapping [leaf] in unary nodes, outermost first:
    every tree built from one leaf and unary operators only is such a
    chain, and its nesting depth is the length of the list. *)
Fixpoint unary_chain (wrappers : list Fncs.t) (leaf : ExpressionPtr) : ExpressionPtr :=
  match wrappers with
  | [] => leaf
  | Fnc :: inner => make_shared (UnaryOperation Fnc (unary_chain inner leaf))
  end.

Definition is_Neg (Fnc : Fncs.t) : bool :=
  match Fnc with Fncs.Neg => true | _ => false end.

(** No operand anywhere in the tree is an empty pointer. *)
Fixpoint well_formed (e : Expression) : bool :=
  match e with
  | Numeric _ | Variable_ _ => true
  | UnaryOperation _ operand => arrow_well_formed operand
  | BinaryOperation _ first second =>
      arrow_well_formed first && arrow_well_formed second
  end
with arrow_well_formed (p : ExpressionPtr) : bool :=
  match p with
  | nullptr => false
  | make_shared e => well_formed e
  end.

(** Nesting depth of what a pointer leads to (0 for the empty pointer). *)
Fixpoint depth (e : Expression) : nat :=
  match e with
  | Numeric _ | Variable_ _ => 1
  | UnaryOperation _ operand => S (arrow_depth operand)
  | BinaryOperation _ first second => S (Nat.max (arrow_depth first) (arrow_depth second))
  end
with arrow_depth (p : ExpressionPtr) : nat :=
  match p with
  | nullptr => 0
  | make_shared e => depth e
  end.

(** * The store reading

    Nodes live in a store; a [shared_ptr] is empty or holds the address of
    a node; [std::make_shared] puts a new node behind the existing ones and
    returns its address.  That is the only way the program has of writing
    to the store: the members of a node are set by its constructor and
    assigned nowhere else.  Nothing here frees a node: a node whose last
    owner is gone is merely unreachable. *)

Declare Scope run_scope.
Delimit Scope run_scope with run.

Module Store.

Definition address : Set := nat.

Definition ExpressionPtr : Set := option address.

Inductive Expression : Set :=
| Numeric (value : float)
| Variable_ (variable : string)
| UnaryOperation (Fnc : Fncs.t) (operand : ExpressionPtr)
| BinaryOperation (Fnc : std_functional) (first second : ExpressionPtr).

Definition store : Set := list Expression.

(** A computation takes the store and gives back how it ended together
    with the store it left, also when it ends by throwing.  [None] means
    that the bound on nested calls was reached before an answer. *)
Definition run (A : Type) : Type := store -> option (outcome A * store).

Definition ret {A : Type} (a : A) : run A :=
  fun h => Some (Returns a, h).

Definition throw {A : Type} (what : string) : run A :=
  fun h => Some (Throws what, h).

Definition bind {A B : Type} (m : run A) (k : A -> run B) : run B :=
  fun h =>
    match m h with
    | None => None
    | Some (Returns a, h') => k a h'
    | Some (Throws what, h') => Some (Throws what, h')
    | Some (Undefined, h') => Some (Undefined, h')
    end.

Module Notations.
Notation "x <- m ;; k" := (bind m (fun x => k))
  (at level 61, m at next level, right associativity) : run_scope.
Notation "' ( x , y ) <- m ;; k" := (bind m (fun p => let '(x, y) := p in k))
  (at level 61, x name, y name, m at next level, right associativity) : run_scope.
End Notations.
Import Notations.

(** [p->]: the node a pointer leads to.  Through an empty pointer (or an
    address no node was ever put at) the access is undefined. *)
Definition arrow (p : ExpressionPtr) : run Expression :=
  fun h =>
    match p with
    | None => Some (Undefined, h)
    | Some a =>
        match nth_error h a with
        | Some e => Some (Returns e, h)
        | None => Some (Undefined, h)
        end
    end.

Definition make_shared (e : Expression) : run ExpressionPtr :=
  fun h => Some (Returns (Some (List.length h)), (h ++ [e])%list).

(** The two operands of a call, in the order the compiler chose. *)
Definition in_order {A B : Type} (left_first : bool) (l : run A) (r : run B) : run (A * B) :=
  if left_first
  then (a <- l ;; b <- r ;; ret (a, b))%run
  else (b <- r ;; a <- l ;; ret (a, b))%run.

Definition numeric (x : float) : run ExpressionPtr := make_shared (Numeric x).
Definition variable (s : string) : run ExpressionPtr := make_shared (Variable_ s).

Definition neg (x : ExpressionPtr) : run ExpressionPtr :=
  make_shared (UnaryOperation Fncs.Neg x).
Definition exp (x : ExpressionPtr) : run ExpressionPtr :=
  make_shared (UnaryOperation Fncs.Exp x).
Definition log (x : ExpressionPtr) : run ExpressionPtr :=
  make_shared (UnaryOperation Fncs.Log x).
Definition sin (x : ExpressionPtr) : run ExpressionPtr :=
  make_shared (UnaryOperation Fncs.Sin x).
Definition cos (x : ExpressionPtr) : run ExpressionPtr :=
  make_shared (UnaryOperation Fncs.Cos x).

Definition sum (a b : ExpressionPtr) : run ExpressionPtr :=
  make_shared (BinaryOperation plus a b).
Definition difference (a b : ExpressionPtr) : run ExpressionPtr :=
  make_shared (BinaryOperation minus a b).
Definition product (a b : ExpressionPtr) : run ExpressionPtr :=
  make_shared (BinaryOperation multiplies a b).
Definition division (a b : ExpressionPtr) : run ExpressionPtr :=
  make_shared (BinaryOperation divides a b).

Section Operations.

(** Whether the compiler evaluates the left operand of a call first. *)
Variable left_first : bool.

Context {libm : cmath}.

(** [eval fuel p] is [p->eval()], with at most [fuel] nested calls. *)
Fixpoint eval (fuel : nat) (p : ExpressionPtr) : run float :=
  match fuel with
  | O => fun _ => None
  | S fuel' =>
      (e <- arrow p ;;
       match e with
       | Numeric value => ret value
       | Variable_ _ => throw "Error trying to evaluate a variable."
       | UnaryOperation Fnc operand =>
           x <- eval fuel' operand ;; ret (call1 Fnc x)
       | BinaryOperation Fnc first second =>
           '(x, y) <- in_order left_first (eval fuel' first) (eval fuel' second) ;;
           ret (call2 Fnc x y)
       end)%run
  end.

(** [deriv fuel p s] is [p->deriv(s)]. *)
Fixpoint deriv (fuel : nat) (p : ExpressionPtr) (s : string) : run ExpressionPtr :=
  match fuel with
  | O => fun _ => None
  | S fuel' =>
      (e <- arrow p ;;
       match e with
       | Numeric _ => ret None
       | Variable_ variable_ =>
           if String.eqb s variable_ then numeric 1 else numeric 0
       | UnaryOperation Fncs.Neg operand =>
           d <- deriv fuel' operand s ;; neg d
       | UnaryOperation Fncs.Exp operand =>
           '(x, d) <- in_order left_first (exp operand) (deriv fuel' operand s) ;;
           sum x d
       | UnaryOperation Fncs.Log operand =>
           d <- deriv fuel' operand s ;; division d operand
       | UnaryOperation Fncs.Sin operand =>
           '(d, c) <- in_order left_first (deriv fuel' operand s) (cos operand) ;;
           product d c
       | UnaryOperation Fncs.Cos operand =>
           '(d, n) <- in_order left_first (deriv fuel' operand s)
                        (x <- sin operand ;; neg x) ;;
           product d n
       | BinaryOperation _ _ _ => throw "bar"
       end)%run
  end.

(** [to_string fuel p] is [p->to_string()]. *)
Fixpoint to_string (fuel : nat) (p : ExpressionPtr) : run string :=
  match fuel with
  | O => fun _ => None
  | S fuel' =>
      (e <- arrow p ;;
       match e with
       | Numeric value => ret (std_to_string value)
       | Variable_ variable_ => ret variable_
       | UnaryOperation Fncs.Neg operand =>
           t <- to_string fuel' operand ;; ret ("-" ++ t)
       | UnaryOperation Fncs.Exp operand =>
           t <- to_string fuel' operand ;; ret ("exp(" ++ t ++ ")")
       | UnaryOperation Fncs.Log operand =>
           t <- to_string fuel' operand ;; ret ("log(" ++ t ++ ")")
       | UnaryOperation Fncs.Sin operand =>
           t <- to_string fuel' operand ;; ret ("sin(" ++ t ++ ")")
       | UnaryOperation Fncs.Cos operand =>
           t <- to_string fuel' operand ;; ret ("cos(" ++ t ++ ")")
       | BinaryOperation Fnc first second =>
           '(l, r) <- in_order left_first (to_string fuel' first)
                        (to_string fuel' second) ;;
           ret ("(" ++ l ++ infix_text Fnc ++ r ++ ")")
       end)%run
  end.

End Operations.

End Store.

Import Store.Notations.

(** The tree a pointer of the store leads to.  Two operands holding the
    same address lead to the same tree: sharing is invisible here. *)
Inductive denotes (h : Store.store) : Store.ExpressionPtr -> ExpressionPtr -> Prop :=
| denotes_nullptr :
    denotes h None nullptr
| denotes_Numeric a value :
    nth_error h a = Some (Store.Numeric value) ->
    denotes h (Some a) (make_shared (Numeric value))
| denotes_Variable a v :
    nth_error h a = Some (Store.Variable_ v) ->
    denotes h (Some a) (make_shared (Variable_ v))
| denotes_UnaryOperation a Fnc p operand :
    nth_error h a = Some (Store.UnaryOperation Fnc p) ->
    denotes h p operand ->
    denotes h (Some a) (make_shared (UnaryOperation Fnc operand))
| denotes_BinaryOperation a Fnc p q first second :
    nth_error h a = Some (Store.BinaryOperation Fnc p q) ->
    denotes h p first ->
    denotes h q second ->
    denotes h (Some a) (make_shared (BinaryOperation Fnc first second)).

(** The demonstration of [main]: two literals, each used several times in
    one expression, and the expression [expr3] built from them. *)
Definition main_expr3 : Store.run Store.ExpressionPtr :=
  (foo_a <- Store.numeric 2 ;;
   foo_b <- Store.numeric 3 ;;
   s <- Store.sin foo_b ;;
   q <- Store.division s foo_a ;;
   i <- Store.sum q foo_b ;;
   o <- Store.sum foo_a i ;;
   m <- Store.product foo_a o ;;
   d <- Store.difference m foo_b ;;
   Store.log d)%run.

(** What a computation may do to the store: leave it as it was, or only
    put new nodes behind the existing ones. *)
Definition preserves {A : Type} (m : Store.run A) : Prop :=
  forall h r h', m h = Some (r, h') -> h' = h.

Definition extends {A : Type} (m : Store.run A) : Prop :=
  forall h r h', m h = Some (r, h') -> exists new, h' = (h ++ new)%list.

(** A pointer a computation returns is empty or the address of a node
    that was not in the store before. *)
Definition allocates (m : Store.run Store.ExpressionPtr) : Prop :=
  forall h q h', m h = Some (Returns q, h') ->
  forall a, q = Some a -> List.length h <= a < List.length h'.

(** ** Further shapes and the rest of the program *)

(** No [Variable] node anywhere in the tree. *)
Fixpoint variable_free (e : Expression) : bool :=
  match e with
  | Numeric _ => true
  | Variable_ _ => false
  | UnaryOperation _ operand => arrow_variable_free operand
  | BinaryOperation _ first second =>
      arrow_variable_free first && arrow_variable_free second
  end
with arrow_variable_free (p : ExpressionPtr) : bool :=
  match p with
  | nullptr => true
  | make_shared e => variable_free e
  end.

(** Where the chain of unary nodes that starts at the root ends: the first
    pointer on the way down that is empty or leads to a node with no
    single operand. *)
Fixpoint spine_end (e : Expression) : ExpressionPtr :=
  match e with
  | UnaryOperation _ operand => arrow_spine_end operand
  | _ => make_shared e
  end
with arrow_spine_end (p : ExpressionPtr) : ExpressionPtr :=
  match p with
  | nullptr => nullptr
  | make_shared e => spine_end e
  end.

(** A construction that, run on the store [h], returns a pointer to a new
    node that leads to the tree [t], and leaves every pointer of [h]
    leading where it led. *)
Definition builds (m : Store.run Store.ExpressionPtr) (h : Store.store)
  (t : ExpressionPtr) : Prop :=
  exists a h',
    m h = Some (Returns (Some a), h')
    /\ List.length h <= a
    /\ denotes h' (Some a) t
    /\ forall p0 t0, denotes h p0 t0 -> denotes h' p0 t0.

(** The free function [to_string(const Numeric &)].  Its body calls
    [to_string(x.value)] unqualified; at that point of the global
    namespace the only function of that name is the one being defined
    ([std::to_string] is not visible, and a [double] brings no namespace
    with it), so the argument is converted to a temporary [Numeric] by the
    converting constructor and the function calls itself.  [fuel] bounds
    the nested calls; [None] means the bound was reached. *)
Fixpoint to_string_Numeric (fuel : nat) (x_value : float) : option string :=
  match fuel with
  | O => None
  | S fuel' => to_string_Numeric fuel' x_value
  end.

(** The four operators on [ExpressionPtr]. *)
Definition operator_plus (a b : ExpressionPtr) : ExpressionPtr := sum a b.
Definition operator_star (a b : ExpressionPtr) : ExpressionPtr := product a b.
Definition operator_minus (a b : ExpressionPtr) : ExpressionPtr := difference a b.
Definition operator_slash (a b : ExpressionPtr) : ExpressionPtr := division a b.

(** What [std::endl] writes. *)
Definition endl : string := String (Ascii.ascii_of_nat 10) EmptyString.

Section Main.

Context {libm : cmath}.

(** The text [operator<<] writes for a [double]. *)
Variable ostream_double : float -> string.

(** The [try] block of [main]: the text it has written to [std::cout]
    when it returns.  What the program writes before a call that does not
    return is not represented. *)
Definition main_try : outcome string :=
  let foo_a := numeric 2 in
  let foo_b := numeric 3 in
  let expr3 :=
    log (difference
           (product foo_a (sum foo_a (sum (division (sin foo_b) foo_a) foo_b)))
           foo_b) in
  let expr4 := log (variable "foo") in
  (expr5 <- arrow_deriv expr4 "a" ;;
   expr6 <- arrow_deriv expr4 "foo" ;;
   '(text3, value3) <- both (arrow_to_string expr3) (arrow_eval expr3) ;;
   text4 <- arrow_to_string expr4 ;;
   text5 <- arrow_to_string expr5 ;;
   text6 <- arrow_to_string expr6 ;;
   text_all <- arrow_to_string
                 (operator_plus (operator_plus (operator_plus expr3 expr4) expr5) expr6) ;;
   Returns ("expr3 = " ++ text3 ++ " expr3.eval() = " ++ ostream_double value3 ++ endl
            ++ "expr4 = " ++ text4 ++ endl
            ++ "expr5 = " ++ text5 ++ endl
            ++ "expr6 = " ++ text6 ++ endl
            ++ "expr3 + expr4 + expr5 + expr6 = " ++ text_all ++ endl))%outcome.

End Main.

(** * Properties of the tree reading *)

(** ** The outcome combinators *)

Lemma both_Undefined_l {A B : Type} (r : outcome B) :
  both (@Undefined A) r = Undefined.
Proof. reflexivity. Qed.

Lemma both_Undefined_r {A B : Type} (l : outcome A) :
  both l (@Undefined B) = Undefined.
Proof. destruct l; reflexivity. Qed.

Lemma both_Returns {A B : Type} (a : A) (b : B) :
  both (Returns a) (Returns b) = Returns (a, b).
Proof. reflexivity. Qed.

Create Rewrite HintDb outcome.
#[local] Hint Rewrite @both_Undefined_l @both_Undefined_r @both_Returns : outcome.

(** ** Printing *)

Lemma unary_chain_well_formed (wrappers : list Fncs.t) (leaf : ExpressionPtr) :
  arrow_well_formed (unary_chain wrappers leaf) = arrow_well_formed leaf.
Proof.
  induction wrappers as [|Fnc inner IH]; simpl; [reflexivity | exact IH].
Qed.

(** Printing a tree without empty pointers returns. *)
Lemma to_string_well_formed :
  (forall e, well_formed e = true -> exists t, to_string e = Returns t) /\
  (forall p, arrow_well_formed p = true -> exists t, arrow_to_string p = Returns t).
Proof.
  apply Expression_ExpressionPtr_ind; simpl.
  - intros value _. eexists; reflexivity.
  - intros v _. eexists; reflexivity.
  - intros Fnc operand IH Hwf. destruct (IH Hwf) as [t Ht].
    rewrite Ht. destruct Fnc; simpl; eexists; reflexivity.
  - intros Fnc first IH1 second IH2 Hwf.
    apply andb_true_iff in Hwf as [H1 H2].
    destruct (IH1 H1) as [l Hl], (IH2 H2) as [r Hr].
    rewrite Hl, Hr. simpl. eexists; reflexivity.
  - discriminate.
  - intros e IH Hwf. exact (IH Hwf).
Qed.

(** ** Differentiating chains of unary operators *)

(** Over a variable, the derivative exists and contains no empty pointer. *)
Lemma deriv_chain_variable (wrappers : list Fncs.t) (v s : string) :
  exists d, arrow_deriv (unary_chain wrappers (variable v)) s = Returns d
            /\ arrow_well_formed d = true.
Proof.
  induction wrappers as [|Fnc inner [d [Hd Hwf]]]; simpl.
  - destruct (String.eqb s v); eexists; split; reflexivity.
  - pose proof (unary_chain_well_formed inner (variable v)) as Hop.
    simpl in Hop.
    destruct Fnc; rewrite Hd; simpl; eexists; (split; [reflexivity|]); simpl;
      rewrite ?Hwf, ?Hop; reflexivity.
Qed.

(** Over a literal, the derivative exists, and the empty pointer that
    [Numeric::deriv] returned sits where printing and evaluation reach
    it.  Differentiating once more reaches it only through negations:
    any other wrapper has turned into a [BinaryOperation], whose [deriv]
    throws before it looks at an operand. *)
Lemma deriv_chain_numeric {libm : cmath} (wrappers : list Fncs.t) (c : float) (s : string) :
  exists d, arrow_deriv (unary_chain wrappers (numeric c)) s = Returns d
            /\ arrow_eval d = Undefined
            /\ arrow_to_string d = Undefined
            /\ forall s', arrow_deriv d s' =
                          if forallb is_Neg wrappers then Undefined else Throws "bar".
Proof.
  induction wrappers as [|Fnc inner [d (Hd & He & Ht & Hdd)]]; simpl.
  - exists nullptr. repeat split; reflexivity.
  - destruct Fnc; rewrite Hd; simpl; eexists; (split; [reflexivity|]); simpl;
      rewrite ?He, ?Ht; autorewrite with outcome; simpl; repeat split; try reflexivity.
    intros s'. rewrite Hdd. destruct (forallb is_Neg inner); reflexivity.
Qed.

(** The positive half of the round trip: over a variable, differentiating
    a chain of unary operators of any depth and printing the result
    returns a text. *)
Lemma deriv_then_print_variable_chain (wrappers : list Fncs.t) (v s : string) :
  exists d t, arrow_deriv (unary_chain wrappers (variable v)) s = Returns d
              /\ arrow_to_string d = Returns t.
Proof.
  destruct (deriv_chain_variable wrappers v s) as [d [Hd Hwf]].
  destruct (proj2 to_string_well_formed d Hwf) as [t Ht].
  exists d, t. split; assumption.
Qed.

(** A failure of the operand's [deriv] is the failure of [Exp::deriv]. *)
Lemma Exp_deriv_propagates (u : ExpressionPtr) (x : string) :
  (forall what, arrow_deriv u x = Throws what -> arrow_deriv (exp u) x = Throws what)
  /\ (arrow_deriv u x = Undefined -> arrow_deriv (exp u) x = Undefined).
Proof.
  split; [intros what H | intros H]; simpl; rewrite H; reflexivity.
Qed.

(** * Properties of the store reading *)

(** ** Running one step *)

Lemma bind_Returns {A B : Type} (m : Store.run A) (k : A -> Store.run B) h a h1 :
  m h = Some (Returns a, h1) -> Store.bind m k h = k a h1.
Proof. intros H. unfold Store.bind. rewrite H. reflexivity. Qed.

Lemma bind_Throws {A B : Type} (m : Store.run A) (k : A -> Store.run B) h what h1 :
  m h = Some (Throws what, h1) -> Store.bind m k h = Some (Throws what, h1).
Proof. intros H. unfold Store.bind. rewrite H. reflexivity. Qed.

Lemma bind_Undefined {A B : Type} (m : Store.run A) (k : A -> Store.run B) h h1 :
  m h = Some (Undefined, h1) -> Store.bind m k h = Some (Undefined, h1).
Proof. intros H. unfold Store.bind. rewrite H. reflexivity. Qed.

Lemma arrow_Some h a e :
  nth_error h a = Some e -> Store.arrow (Some a) h = Some (Returns e, h).
Proof. intros H. unfold Store.arrow. rewrite H. reflexivity. Qed.

(** ** What each primitive does to the store *)

Lemma preserves_extends {A : Type} (m : Store.run A) : preserves m -> extends m.
Proof.
  intros Hm h r h' H. exists []. rewrite (Hm h r h' H), app_nil_r. reflexivity.
Qed.

Lemma preserves_ret {A : Type} (a : A) : preserves (Store.ret a).
Proof. intros h r h' H. injection H as _ <-. reflexivity. Qed.

Lemma preserves_throw {A : Type} (what : string) : preserves (@Store.throw A what).
Proof. intros h r h' H. injection H as _ <-. reflexivity. Qed.

Lemma preserves_arrow (p : Store.ExpressionPtr) : preserves (Store.arrow p).
Proof.
  intros h r h' H. unfold Store.arrow in H.
  destruct p as [a|]; [destruct (nth_error h a) |]; injection H as _ <-; reflexivity.
Qed.

Lemma preserves_bind {A B : Type} (m : Store.run A) (k : A -> Store.run B) :
  preserves m -> (forall a, preserves (k a)) -> preserves (Store.bind m k).
Proof.
  intros Hm Hk h r h' H. unfold Store.bind in H.
  destruct (m h) as [[[a|what|] h1]|] eqn:E; try discriminate;
    pose proof (Hm _ _ _ E) as ->.
  - exact (Hk a _ _ _ H).
  - injection H as _ <-. reflexivity.
  - injection H as _ <-. reflexivity.
Qed.

Lemma preserves_in_order {A B : Type} (left_first : bool)
  (l : Store.run A) (r : Store.run B) :
  preserves l -> preserves r -> preserves (Store.in_order left_first l r).
Proof.
  intros Hl Hr. unfold Store.in_order.
  destruct left_first; repeat (apply preserves_bind; [assumption | intros ?]);
    apply preserves_ret.
Qed.

Lemma extends_make_shared (e : Store.Expression) : extends (Store.make_shared e).
Proof. intros h r h' H. injection H as _ <-. eexists; reflexivity. Qed.

Lemma extends_bind {A B : Type} (m : Store.run A) (k : A -> Store.run B) :
  extends m -> (forall a, extends (k a)) -> extends (Store.bind m k).
Proof.
  intros Hm Hk h r h' H. unfold Store.bind in H.
  destruct (m h) as [[[a|what|] h1]|] eqn:E; try discriminate;
    destruct (Hm _ _ _ E) as [new1 ->].
  - destruct (Hk a _ _ _ H) as [new2 ->].
    exists (new1 ++ new2)%list. rewrite app_assoc. reflexivity.
  - injection H as _ <-. eexists; reflexivity.
  - injection H as _ <-. eexists; reflexivity.
Qed.

Lemma extends_in_order {A B : Type} (left_first : bool)
  (l : Store.run A) (r : Store.run B) :
  extends l -> extends r -> extends (Store.in_order left_first l r).
Proof.
  intros Hl Hr. unfold Store.in_order.
  destruct left_first; repeat (apply extends_bind; [assumption | intros ?]);
    apply preserves_extends, preserves_ret.
Qed.

Lemma allocates_make_shared (e : Store.Expression) : allocates (Store.make_shared e).
Proof.
  intros h q h' H a Hq. injection H as <- <-. injection Hq as <-.
  rewrite length_app. simpl. lia.
Qed.

Lemma allocates_bind {A : Type} (m : Store.run A) (k : A -> Store.run Store.ExpressionPtr) :
  extends m -> (forall x, allocates (k x)) -> allocates (Store.bind m k).
Proof.
  intros Hm Hk h q h' H a Hq. unfold Store.bind in H.
  destruct (m h) as [[[x|what|] h1]|] eqn:E; try discriminate.
  destruct (Hm _ _ _ E) as [new1 ->].
  pose proof (Hk x _ _ _ H a Hq) as Hrange.
  rewrite length_app in Hrange. lia.
Qed.

Create HintDb frame.
#[local] Hint Resolve preserves_ret preserves_throw preserves_arrow
  preserves_bind preserves_in_order preserves_extends
  extends_make_shared extends_bind extends_in_order
  allocates_make_shared allocates_bind : frame.

Section Frame.

Variable left_first : bool.
Context {libm : cmath}.

(** [eval] leaves the store as it found it, however it ends. *)
Lemma eval_preserves (fuel : nat) (p : Store.ExpressionPtr) :
  preserves (Store.eval left_first fuel p).
Proof.
  revert p. induction fuel as [|fuel IH]; intros p; simpl.
  - intros h r h' H. discriminate.
  - apply preserves_bind; [apply preserves_arrow |].
    intros [value|v|Fnc operand|Fnc first second]; auto with frame.
    apply preserves_bind; [auto with frame |].
    intros [x y]. apply preserves_ret.
Qed.

(** So does [to_string]. *)
Lemma to_string_preserves (fuel : nat) (p : Store.ExpressionPtr) :
  preserves (Store.to_string left_first fuel p).
Proof.
  revert p. induction fuel as [|fuel IH]; intros p; simpl.
  - intros h r h' H. discriminate.
  - apply preserves_bind; [apply preserves_arrow |].
    intros [value|v|Fnc operand|Fnc first second]; auto with frame.
    + destruct Fnc; auto with frame.
    + apply preserves_bind; [auto with frame |].
      intros [x y]. apply preserves_ret.
Qed.

(** [deriv] only puts new nodes behind the existing ones. *)
Lemma deriv_extends (fuel : nat) (p : Store.ExpressionPtr) (s : string) :
  extends (Store.deriv left_first fuel p s).
Proof.
  revert p. induction fuel as [|fuel IH]; intros p; simpl.
  - intros h r h' H. discriminate.
  - apply extends_bind; [auto with frame |].
    intros [value|v|Fnc operand|Fnc first second]; auto with frame.
    + destruct (String.eqb s v); apply extends_make_shared.
    + destruct Fnc;
        repeat first
          [ apply extends_make_shared
          | apply IH
          | apply extends_in_order
          | apply extends_bind; [| intros ?]
          | match goal with |- extends (let '(_, _) := ?x in _) => destruct x end ].
Qed.

(** What [deriv] returns is empty or a node it has just made. *)
Lemma deriv_allocates (fuel : nat) (p : Store.ExpressionPtr) (s : string) :
  allocates (Store.deriv left_first fuel p s).
Proof.
  destruct fuel as [|fuel]; simpl.
  - intros h q h' H. discriminate.
  - apply allocates_bind; [auto with frame |].
    intros [value|v|Fnc operand|Fnc first second].
    + intros h q h' H a Hq. injection H as <- _. discriminate.
    + destruct (String.eqb s v); apply allocates_make_shared.
    + destruct Fnc;
        (apply allocates_bind;
         [ first [ apply deriv_extends
                 | apply extends_in_order;
                   repeat first [ apply deriv_extends | apply extends_make_shared
                                | apply extends_bind; [| intros ?] ] ]
         | intros x; try destruct x; apply allocates_make_shared ]).
    + intros h q h' H. discriminate.
Qed.

End Frame.

(** ** Pointers and the trees they lead to *)

Lemma nth_error_snoc {A : Type} (h : list A) (e : A) :
  nth_error (h ++ [e])%list (List.length h) = Some e.
Proof.
  rewrite nth_error_app2 by lia. rewrite Nat.sub_diag. reflexivity.
Qed.

Lemma denotes_app h new p t : denotes h p t -> denotes (h ++ new)%list p t.
Proof.
  induction 1; econstructor; eauto;
    rewrite nth_error_app1; eauto; apply nth_error_Some; congruence.
Qed.

Lemma denotes_extends {A : Type} (m : Store.run A) h r h' p t :
  extends m -> m h = Some (r, h') -> denotes h p t -> denotes h' p t.
Proof.
  intros Hm H Hden. destruct (Hm _ _ _ H) as [new ->]. apply denotes_app, Hden.
Qed.

Lemma denotes_new_Numeric h value :
  denotes (h ++ [Store.Numeric value])%list (Some (List.length h)) (numeric value).
Proof. apply denotes_Numeric, nth_error_snoc. Qed.

Lemma denotes_new_UnaryOperation h Fnc p operand :
  denotes h p operand ->
  denotes (h ++ [Store.UnaryOperation Fnc p])%list (Some (List.length h))
    (make_shared (UnaryOperation Fnc operand)).
Proof.
  intros H. eapply denotes_UnaryOperation; [apply nth_error_snoc |].
  apply denotes_app, H.
Qed.

Lemma denotes_new_BinaryOperation h Fnc p q first second :
  denotes h p first -> denotes h q second ->
  denotes (h ++ [Store.BinaryOperation Fnc p q])%list (Some (List.length h))
    (make_shared (BinaryOperation Fnc first second)).
Proof.
  intros Hp Hq. eapply denotes_BinaryOperation; [apply nth_error_snoc | |];
    apply denotes_app; assumption.
Qed.

(** ** What the tree reading can throw *)

Lemma eval_Throws_text {libm : cmath} :
  (forall e what, eval e = Throws what ->
                  what = "Error trying to evaluate a variable.")
  /\ (forall p what, arrow_eval p = Throws what ->
                     what = "Error trying to evaluate a variable.").
Proof.
  apply Expression_ExpressionPtr_ind; simpl.
  - discriminate.
  - intros _ what H. injection H as <-. reflexivity.
  - intros Fnc operand IH what H.
    destruct (arrow_eval operand) as [x|w|]; simpl in H; try discriminate.
    injection H as <-. apply IH. reflexivity.
  - intros Fnc first IH1 second IH2 what H.
    destruct (arrow_eval first) as [x|w1|], (arrow_eval second) as [y|w2|];
      simpl in H; try discriminate; injection H as <-;
      first [apply IH1; reflexivity | apply IH2; reflexivity].
  - discriminate.
  - intros e IH. exact IH.
Qed.

Lemma to_string_never_throws :
  (forall e what, to_string e <> Throws what)
  /\ (forall p what, arrow_to_string p <> Throws what).
Proof.
  apply Expression_ExpressionPtr_ind; simpl; try discriminate.
  - intros Fnc operand IH what.
    destruct (arrow_to_string operand) as [t|w|] eqn:E;
      [| exfalso; exact (IH w eq_refl) |]; destruct Fnc; discriminate.
  - intros Fnc first IH1 second IH2 what.
    destruct (arrow_to_string first) as [l|w|] eqn:E1;
      [| exfalso; exact (IH1 w eq_refl) |];
      (destruct (arrow_to_string second) as [r|w|] eqn:E2;
       [| exfalso; exact (IH2 w eq_refl) |]); discriminate.
  - intros e IH. exact IH.
Qed.

(** ** The store reading computes what the tree reading does *)

Lemma bind_assoc {A B C : Type} (m : Store.run A) (f : A -> Store.run B)
  (g : B -> Store.run C) h :
  Store.bind (Store.bind m f) g h = Store.bind m (fun a => Store.bind (f a) g) h.
Proof.
  unfold Store.bind. destruct (m h) as [[[a|what|] h1]|]; reflexivity.
Qed.

Ltac run_bind :=
  repeat first
    [ rewrite bind_assoc
    | erewrite bind_Returns by first [eassumption | reflexivity]
    | erewrite bind_Throws by eassumption
    | erewrite bind_Undefined by eassumption ].

Lemma in_order_exact {A B : Type} (left_first : bool)
  (l : Store.run A) (r : Store.run B) h (tl : outcome A) (tr : outcome B) :
  l h = Some (tl, h) -> r h = Some (tr, h) ->
  (forall what, tl <> Throws what) -> (forall what, tr <> Throws what) ->
  Store.in_order left_first l r h = Some (both tl tr, h).
Proof.
  intros Hl Hr Nl Nr. unfold Store.in_order.
  destruct tl as [a|w|]; [| exfalso; exact (Nl w eq_refl) |];
    (destruct tr as [b|w|]; [| exfalso; exact (Nr w eq_refl) |]);
    destruct left_first; run_bind; reflexivity.
Qed.

Lemma in_order_both {A B : Type} (left_first : bool)
  (l : Store.run A) (r : Store.run B) h ol or (tl : outcome A) (tr : outcome B) :
  l h = Some (ol, h) -> r h = Some (or, h) ->
  (tl <> Undefined -> ol = tl) -> (tr <> Undefined -> or = tr) ->
  (forall w1 w2, tl = Throws w1 -> tr = Throws w2 -> w1 = w2) ->
  exists o, Store.in_order left_first l r h = Some (o, h)
            /\ (both tl tr <> Undefined -> o = both tl tr).
Proof.
  intros Hl Hr Rl Rr Same. unfold Store.in_order.
  destruct left_first, ol as [a|w1|], or as [b|w2|]; run_bind;
    (eexists; split; [reflexivity |]); intros Hne;
    destruct tl, tr; simpl in Hne |- *; try (contradiction Hne; reflexivity);
    specialize (Rl ltac:(discriminate)); specialize (Rr ltac:(discriminate));
    try pose proof (Same _ _ eq_refl eq_refl); congruence.
Qed.

Section Refinement.

Variable left_first : bool.
Context {libm : cmath}.

Lemma eval_refines (fuel : nat) :
  forall h p t, denotes h p t -> arrow_depth t < fuel ->
  exists o, Store.eval left_first fuel p h = Some (o, h)
            /\ (arrow_eval t <> Undefined -> o = arrow_eval t).
Proof.
  induction fuel as [|fuel IH]; intros h p t Hden Hd; [lia |].
  inversion Hden; subst; simpl in Hd |- *.
  - exists Undefined. split; [reflexivity | intros H; contradiction H; reflexivity].
  - rewrite (bind_Returns _ _ _ _ _ (arrow_Some _ _ _ H)).
    exists (Returns value). split; reflexivity.
  - rewrite (bind_Returns _ _ _ _ _ (arrow_Some _ _ _ H)).
    eexists. split; reflexivity.
  - rewrite (bind_Returns _ _ _ _ _ (arrow_Some _ _ _ H)).
    destruct (IH h p0 operand H0 ltac:(lia)) as [o [Ho Hrel]].
    exists (x <- o ;; Returns (call1 Fnc x))%outcome. split.
    + destruct o; run_bind; reflexivity.
    + intros Hne. rewrite Hrel; [reflexivity |].
      intros E. apply Hne. rewrite E. reflexivity.
  - rewrite (bind_Returns _ _ _ _ _ (arrow_Some _ _ _ H)).
    destruct (IH h p0 first H0 ltac:(lia)) as [o1 [Ho1 Hrel1]].
    destruct (IH h q second H1 ltac:(lia)) as [o2 [Ho2 Hrel2]].
    destruct (in_order_both left_first _ _ h o1 o2 _ _ Ho1 Ho2 Hrel1 Hrel2)
      as [o [Ho Hrel]].
    { intros w1 w2 E1 E2.
      rewrite (proj2 eval_Throws_text _ _ E1), (proj2 eval_Throws_text _ _ E2).
      reflexivity. }
    exists ('(x, y) <- o ;; Returns (call2 Fnc x y))%outcome. split.
    + destruct o as [[x y]| |]; run_bind; reflexivity.
    + intros Hne. rewrite Hrel; [reflexivity |].
      intros E. apply Hne. rewrite E. reflexivity.
Qed.

Lemma to_string_refines (fuel : nat) :
  forall h p t, denotes h p t -> arrow_depth t < fuel ->
  Store.to_string left_first fuel p h = Some (arrow_to_string t, h).
Proof.
  induction fuel as [|fuel IH]; intros h p t Hden Hd; [lia |].
  inversion Hden; subst; simpl in Hd |- *;
    try rewrite (bind_Returns _ _ _ _ _ (arrow_Some _ _ _ H)); try reflexivity.
  - pose proof (IH h p0 operand H0 ltac:(lia)) as Ho.
    destruct Fnc; destruct (arrow_to_string operand); run_bind; reflexivity.
  - pose proof (IH h p0 first H0 ltac:(lia)) as Ho1.
    pose proof (IH h q second H1 ltac:(lia)) as Ho2.
    pose proof (in_order_exact left_first _ _ h _ _ Ho1 Ho2
                  (proj2 to_string_never_throws first)
                  (proj2 to_string_never_throws second)) as Ho.
    destruct (both (arrow_to_string first) (arrow_to_string second)) as [[l r]| |];
      run_bind; reflexivity.
Qed.

Ltac solve_denotes :=
  repeat first
    [ eassumption
    | apply denotes_new_BinaryOperation
    | apply denotes_new_UnaryOperation
    | apply denotes_new_Numeric
    | apply denotes_app
    | eapply denotes_extends; [apply deriv_extends | eassumption |] ].

Lemma deriv_refines (fuel : nat) :
  forall h p t s, denotes h p t -> arrow_depth t < fuel ->
  exists o h', Store.deriv left_first fuel p s h = Some (o, h')
    /\ match arrow_deriv t s with
       | Returns t' => exists q, o = Returns q /\ denotes h' q t'
       | Throws what => o = Throws what
       | Undefined => o = Undefined
       end.
Proof.
  induction fuel as [|fuel IH]; intros h p t s Hden Hd; [lia |].
  inversion Hden; subst; simpl in Hd |- *;
    try rewrite (bind_Returns _ _ _ _ _ (arrow_Some _ _ _ H)).
  - exists Undefined, h. split; reflexivity.
  - exists (Returns None), h. split; [reflexivity |].
    exists None. split; [reflexivity | constructor].
  - destruct (String.eqb s v); eexists _, _; (split; [reflexivity |]);
      eexists; (split; [reflexivity |]); apply denotes_new_Numeric.
  - assert (Hfuel : arrow_depth operand < fuel) by lia.
    destruct Fnc, left_first; unfold Store.in_order; run_bind;
      match goal with
      | |- context [Store.bind (Store.deriv _ fuel p0 s) _ ?hX] =>
          destruct (IH hX p0 operand s ltac:(solve_denotes) Hfuel)
            as [o [h1 [Ho Hrel]]]
      end;
      (destruct (arrow_deriv operand s) as [t'|what|];
       [destruct Hrel as [q [-> Hq]] | subst o | subst o]);
      run_bind; eexists _, _; (split; [reflexivity |]);
      try reflexivity;
      (eexists; split; [reflexivity |]); solve_denotes.
  - eexists _, _. split; reflexivity.
Qed.

End Refinement.

(** ** The demonstration of [main] *)

(** [expr4 = log(variable("foo"))] and its derivatives [expr5] (by [a])
    and [expr6] (by [foo]), as [main] prints them. *)
Example main_expr4_to_string :
  arrow_to_string (log (variable "foo")) = Returns "log(foo)".
Proof. reflexivity. Qed.

Example main_expr5_to_string :
  (d <- arrow_deriv (log (variable "foo")) "a" ;; arrow_to_string d)%outcome
  = Returns "(0.000000 / foo)".
Proof. vm_compute. reflexivity. Qed.

Example main_expr6_to_string :
  (d <- arrow_deriv (log (variable "foo")) "foo" ;; arrow_to_string d)%outcome
  = Returns "(1.000000 / foo)".
Proof. vm_compute. reflexivity. Qed.

(** [expr3] holds each of its two literals in several operands; it takes
    nine nodes, and prints as the tree with the literals repeated. *)
Example main_expr3_to_string :
  exists h,
    (p <- main_expr3 ;; Store.to_string true 9 p)%run []
    = Some (Returns "log(((2.000000 * (2.000000 + ((sin(3.000000) / 2.000000) + 3.000000))) - 3.000000))", h)
    /\ List.length h = 9.
Proof. eexists. split; vm_compute; reflexivity. Qed.

(** * The specification, statement by statement *)

(** C1.  The specification asks that differentiating a literal give the
    literal 0.  [Numeric::deriv] returns the empty pointer instead, for
    every value and every variable name, and that is not the node
    [numeric(0)]. *)
Theorem Numeric_deriv_is_empty_pointer (c : float) (x : string) :
  arrow_deriv (numeric c) x = Returns nullptr
  /\ arrow_deriv (numeric c) x <> Returns (numeric 0).
Proof.
  split; [reflexivity | discriminate].
Qed.

(** C2.  For every operand [u] and name [x], with [u'] the derivative of
    [u], the derivative of [exp(u)] is the node [sum(exp(u), u')]: a sum,
    not the product of the chain rule. *)
Theorem Exp_deriv_is_sum (u : ExpressionPtr) (x : string) (u' : ExpressionPtr) :
  arrow_deriv u x = Returns u' ->
  arrow_deriv (exp u) x = Returns (sum (exp u) u')
  /\ arrow_deriv (exp u) x <> Returns (product (exp u) u').
Proof.
  intros H. simpl. rewrite H. simpl.
  split; [reflexivity | discriminate].
Qed.

Lemma Exp_deriv_is_sum_witness :
  arrow_deriv (variable "x") "x" = Returns (numeric 1)
  /\ arrow_deriv (exp (variable "x")) "x"
     = Returns (sum (exp (variable "x")) (numeric 1))
  /\ arrow_deriv (exp (variable "x")) "x"
     <> Returns (product (exp (variable "x")) (numeric 1)).
Proof.
  split; [reflexivity |].
  apply (Exp_deriv_is_sum (variable "x") "x" (numeric 1)). reflexivity.
Defined.

(** C3, as the specification states it, is false: no reading of the
    failure recovers the operator of the node, because a sum and a product
    fail in the same way. *)
Lemma BinaryOperation_deriv_failure_has_no_tag :
  ~ (exists tag_of : string -> std_functional,
       forall Fnc a b s, exists what,
         deriv (BinaryOperation Fnc a b) s = Throws what /\ tag_of what = Fnc).
Proof.
  intros [tag_of H].
  destruct (H plus (numeric 1) (numeric 2) "x") as [w1 [E1 T1]].
  destruct (H multiplies (numeric 1) (numeric 2) "x") as [w2 [E2 T2]].
  simpl in E1, E2. injection E1 as <-. injection E2 as <-.
  rewrite T1 in T2. discriminate.
Qed.

(** C3, amended.  For every [BinaryOperation] node, whatever its operator
    and operands, and every variable name, [deriv] throws, and what it
    throws is the [std::runtime_error] with the fixed text [bar]. *)
Theorem BinaryOperation_deriv_throws_bar
  (Fnc : std_functional) (a b : ExpressionPtr) (s : string) :
  arrow_deriv (make_shared (BinaryOperation Fnc a b)) s = Throws "bar".
Proof. reflexivity. Qed.

Section EvalStatements.

Context {libm : cmath}.

(** C4, as the specification states it, is false: no reading of the
    failure recovers the name of the variable, because two variables of
    different names fail in the same way. *)
Lemma Variable_eval_failure_has_no_name :
  ~ (exists name_of : string -> string,
       forall (libm : cmath) v, exists what,
         arrow_eval (variable v) = Throws what /\ name_of what = v).
Proof.
  intros [name_of H].
  destruct (H cmath_nan "x") as [w1 [E1 N1]].
  destruct (H cmath_nan "y") as [w2 [E2 N2]].
  simpl in E1, E2. injection E1 as <-. injection E2 as <-.
  rewrite N1 in N2. discriminate.
Qed.

(** C4, amended.  For every variable name [v], evaluating [variable(v)]
    throws, and what it throws is the [std::runtime_error] with the fixed
    text [Error trying to evaluate a variable.], which does not depend on
    [v]. *)
Theorem Variable_eval_throws (v : string) :
  arrow_eval (variable v) = Throws "Error trying to evaluate a variable.".
Proof. reflexivity. Qed.

(** C7.  Evaluating [division(numeric(1), numeric(0))] returns positive
    infinity; and whenever the two operands of a division evaluate to
    values, the division returns their IEEE quotient, whatever the
    divisor: no value of the divisor makes [eval] throw. *)
Theorem Division_eval_by_zero :
  arrow_eval (division (numeric 1) (numeric 0)) = Returns infinity
  /\ forall a b x y,
       arrow_eval a = Returns x -> arrow_eval b = Returns y ->
       arrow_eval (division a b) = Returns (x / y)%float.
Proof.
  split; [reflexivity |].
  intros a b x y Ha Hb. simpl. rewrite Ha, Hb. reflexivity.
Qed.

End EvalStatements.

Lemma Division_eval_by_zero_witness :
  @arrow_eval cmath_nan (numeric (-1)) = Returns (-1)%float
  /\ @arrow_eval cmath_nan (neg (numeric 0)) = Returns (-0)%float
  /\ @arrow_eval cmath_nan (division (numeric (-1)) (neg (numeric 0)))
     = Returns infinity.
Proof.
  split; [reflexivity |]. split; [reflexivity |].
  exact (proj2 (@Division_eval_by_zero cmath_nan)
           (numeric (-1)) (neg (numeric 0)) (-1)%float (-0)%float
           eq_refl eq_refl).
Defined.

(** C5.  The specification asks that differentiating and then printing a
    tree of literals, variables and unary operators never fail.  In the
    program it does whenever the leaf is a literal, at every depth: the
    derivative is returned, and printing it goes through the empty
    pointer. *)
Theorem deriv_then_print_literal_chain (wrappers : list Fncs.t) (c : float) (s : string) :
  exists d, arrow_deriv (unary_chain wrappers (numeric c)) s = Returns d
            /\ arrow_to_string d = Undefined.
Proof.
  destruct (@deriv_chain_numeric cmath_nan wrappers c s) as [d (Hd & _ & Ht & _)].
  exists d. split; assumption.
Qed.

(** C6.  Differentiating a variable with respect to its own name gives the
    literal 1, and with respect to any other name the literal 0. *)
Theorem Variable_deriv (v w : string) :
  arrow_deriv (variable v) v = Returns (numeric 1)
  /\ (v <> w -> arrow_deriv (variable v) w = Returns (numeric 0)).
Proof.
  simpl. split.
  - rewrite String.eqb_refl. reflexivity.
  - intros Hne. destruct (String.eqb_spec w v) as [->|_]; [contradiction | reflexivity].
Qed.

Lemma Variable_deriv_witness :
  "foo" <> "a"
  /\ arrow_deriv (variable "foo") "foo" = Returns (numeric 1)
  /\ arrow_deriv (variable "foo") "a" = Returns (numeric 0).
Proof.
  assert (Hne : "foo" <> "a") by discriminate.
  split; [exact Hne |].
  destruct (Variable_deriv "foo" "a") as [H1 H0].
  split; [exact H1 | exact (H0 Hne)].
Defined.

(** C8.  Every binary node prints as an opening parenthesis, its left
    operand, the operator between two spaces, its right operand and a
    closing parenthesis; [exp], [log], [sin] and [cos] print as the
    function name applied to the operand in parentheses; a negation prints
    as a minus sign directly followed by the operand; and
    [sum(numeric(2), numeric(3))] prints as [(2.000000 + 3.000000)]. *)
Theorem to_string_shapes :
  (forall a b l r,
     arrow_to_string a = Returns l -> arrow_to_string b = Returns r ->
     arrow_to_string (sum a b) = Returns ("(" ++ l ++ " + " ++ r ++ ")")
     /\ arrow_to_string (difference a b) = Returns ("(" ++ l ++ " - " ++ r ++ ")")
     /\ arrow_to_string (product a b) = Returns ("(" ++ l ++ " * " ++ r ++ ")")
     /\ arrow_to_string (division a b) = Returns ("(" ++ l ++ " / " ++ r ++ ")"))
  /\ (forall u t,
        arrow_to_string u = Returns t ->
        arrow_to_string (exp u) = Returns ("exp(" ++ t ++ ")")
        /\ arrow_to_string (log u) = Returns ("log(" ++ t ++ ")")
        /\ arrow_to_string (sin u) = Returns ("sin(" ++ t ++ ")")
        /\ arrow_to_string (cos u) = Returns ("cos(" ++ t ++ ")")
        /\ arrow_to_string (neg u) = Returns ("-" ++ t))
  /\ arrow_to_string (sum (numeric 2) (numeric 3)) = Returns "(2.000000 + 3.000000)".
Proof.
  split; [| split].
  - intros a b l r Ha Hb. simpl. rewrite Ha, Hb. simpl.
    repeat split; reflexivity.
  - intros u t Hu. simpl. rewrite Hu. simpl.
    repeat split; reflexivity.
  - vm_compute. reflexivity.
Qed.

Lemma to_string_shapes_witness :
  arrow_to_string (numeric 2) = Returns "2.000000"
  /\ arrow_to_string (variable "foo") = Returns "foo"
  /\ arrow_to_string (division (numeric 2) (variable "foo")) = Returns "(2.000000 / foo)"
  /\ arrow_to_string (neg (variable "foo")) = Returns "-foo".
Proof.
  assert (H2 : arrow_to_string (numeric 2) = Returns "2.000000")
    by (vm_compute; reflexivity).
  assert (Hfoo : arrow_to_string (variable "foo") = Returns "foo")
    by reflexivity.
  split; [exact H2 |]. split; [exact Hfoo |].
  destruct to_string_shapes as (Hbin & Hun & _).
  split.
  - exact (proj2 (proj2 (proj2
             (Hbin (numeric 2) (variable "foo") "2.000000" "foo" H2 Hfoo)))).
  - exact (proj2 (proj2 (proj2 (proj2
             (Hun (variable "foo") "foo" Hfoo))))).
Defined.

(** C9.  None of the three operations writes to a node.  [eval] and
    [to_string] leave the store exactly as they found it, however they
    end; [deriv] only puts new nodes behind the existing ones, and the
    pointer it returns is empty or the address of a node it has just
    made.  Each is a function of the tree alone: when the pointer leads
    to a tree [t], the operation ends within any bound above the depth of
    [t], with the outcome that the tree reading computes from [t] (for
    [eval], unless that outcome is undefined), and the pointer [deriv]
    returns leads to the tree the tree reading returns. *)
Theorem operations_never_mutate (left_first : bool) {libm : cmath} :
  (forall fuel p, preserves (Store.eval left_first fuel p))
  /\ (forall fuel p, preserves (Store.to_string left_first fuel p))
  /\ (forall fuel p s, extends (Store.deriv left_first fuel p s)
                       /\ allocates (Store.deriv left_first fuel p s))
  /\ (forall h p t s fuel,
        denotes h p t -> arrow_depth t < fuel ->
        (exists o, Store.eval left_first fuel p h = Some (o, h)
                   /\ (arrow_eval t <> Undefined -> o = arrow_eval t))
        /\ Store.to_string left_first fuel p h = Some (arrow_to_string t, h)
        /\ (exists o new,
              Store.deriv left_first fuel p s h = Some (o, (h ++ new)%list)
              /\ match arrow_deriv t s with
                 | Returns t' =>
                     exists q, o = Returns q /\ denotes (h ++ new)%list q t'
                               /\ forall a, q = Some a ->
                                   List.length h <= a < List.length (h ++ new)%list
                 | Throws what => o = Throws what
                 | Undefined => o = Undefined
                 end)).
Proof.
  split; [intros; apply eval_preserves |].
  split; [intros; apply to_string_preserves |].
  split; [intros; split; [apply deriv_extends | apply deriv_allocates] |].
  intros h p t s fuel Hden Hd.
  split; [exact (eval_refines left_first fuel h p t Hden Hd) |].
  split; [exact (to_string_refines left_first fuel h p t Hden Hd) |].
  destruct (deriv_refines left_first fuel h p t s Hden Hd) as [o [h' [Ho Hrel]]].
  destruct (deriv_extends left_first fuel p s h o h' Ho) as [new ->].
  exists o, new. split; [exact Ho |].
  destruct (arrow_deriv t s) as [t'|what|]; try exact Hrel.
  destruct Hrel as [q [-> Hq]].
  exists q. split; [reflexivity |]. split; [exact Hq |].
  intros a Ha. exact (deriv_allocates left_first fuel p s h q _ Ho a Ha).
Qed.

Lemma operations_never_mutate_witness :
  let h := [Store.Variable_ "foo"; Store.UnaryOperation Fncs.Log (Some 0)] in
  denotes h (Some 1) (log (variable "foo"))
  /\ arrow_depth (log (variable "foo")) < 3
  /\ Store.to_string true 3 (Some 1) h = Some (Returns "log(foo)", h)
  /\ exists o new,
       @Store.deriv true 3 (Some 1) "foo" h = Some (o, (h ++ new)%list)
       /\ exists q, o = Returns q
                    /\ denotes (h ++ new)%list q (division (numeric 1) (variable "foo"))
                    /\ forall a, q = Some a ->
                        List.length h <= a < List.length (h ++ new)%list.
Proof.
  intros h.
  assert (Hden : denotes h (Some 1) (log (variable "foo"))).
  { eapply denotes_UnaryOperation; [reflexivity |].
    apply denotes_Variable. reflexivity. }
  assert (Hd : arrow_depth (log (variable "foo")) < 3) by (simpl; lia).
  split; [exact Hden |]. split; [exact Hd |].
  destruct (@operations_never_mutate true cmath_nan) as (_ & _ & _ & Hrun).
  destruct (Hrun h (Some 1) (log (variable "foo")) "foo" 3 Hden Hd)
    as (_ & Hprint & Hderiv).
  split; [exact Hprint | exact Hderiv].
Defined.

(** C10, as stated, is false for [differentiate]: the derivative of
    [sin(numeric(2))] is the product node whose left operand is the empty
    pointer, and differentiating that node throws [bar]; it does not go
    through the empty pointer. *)
Lemma deriv_of_Sin_Numeric_deriv_throws :
  arrow_deriv (sin (numeric 2)) "x" = Returns (product nullptr (cos (numeric 2)))
  /\ arrow_deriv (product nullptr (cos (numeric 2))) "x" = Throws "bar"
  /\ arrow_deriv (product nullptr (cos (numeric 2))) "x" <> Undefined.
Proof.
  split; [reflexivity |]. split; [reflexivity | discriminate].
Qed.

(** C10, amended.  Differentiating a literal returns the empty pointer;
    evaluating, differentiating or printing through the empty pointer is
    undefined; and for a literal under any chain of unary operators the
    derivative is returned, evaluating it and printing it are undefined,
    and differentiating it again is undefined when the chain consists of
    negations only and throws [bar] otherwise. *)
Theorem Numeric_deriv_poisons {libm : cmath} :
  (forall c x, arrow_deriv (numeric c) x = Returns nullptr)
  /\ (arrow_eval nullptr = Undefined
      /\ (forall x, arrow_deriv nullptr x = Undefined)
      /\ arrow_to_string nullptr = Undefined)
  /\ (forall wrappers c x,
        exists d, arrow_deriv (unary_chain wrappers (numeric c)) x = Returns d
                  /\ arrow_eval d = Undefined
                  /\ arrow_to_string d = Undefined
                  /\ forall y, arrow_deriv d y =
                               if forallb is_Neg wrappers
                               then Undefined else Throws "bar").
Proof.
  split; [reflexivity |]. split; [repeat split |].
  intros wrappers c x. exact (deriv_chain_numeric wrappers c x).
Qed.

(** * Further properties *)

(** ** Outcomes by the shape of the tree *)

Section TreeShapes.
Context {libm : cmath}.

Lemma eval_by_shape :
  (forall e,
     if well_formed e
     then if variable_free e
          then exists x, eval e = Returns x
          else eval e = Throws "Error trying to evaluate a variable."
     else eval e = Undefined)
  /\ (forall p,
        if arrow_well_formed p
        then if arrow_variable_free p
             then exists x, arrow_eval p = Returns x
             else arrow_eval p = Throws "Error trying to evaluate a variable."
        else arrow_eval p = Undefined).
Proof.
  apply Expression_ExpressionPtr_ind; simpl.
  - intros value. eexists; reflexivity.
  - reflexivity.
  - intros Fnc operand IH.
    destruct (arrow_well_formed operand), (arrow_variable_free operand);
      [destruct IH as [x ->]; eexists | rewrite IH ..]; reflexivity.
  - intros Fnc first IH1 second IH2.
    destruct (arrow_well_formed first), (arrow_variable_free first),
      (arrow_well_formed second), (arrow_variable_free second); simpl;
      repeat match goal with
             | H : exists _, _ = _ |- _ => destruct H as [? ->]
             | H : _ = _ |- _ => rewrite H; clear H
             end;
      autorewrite with outcome; simpl; try reflexivity.
    all: try (eexists; reflexivity).
  - reflexivity.
  - intros e IH. exact IH.
Qed.

Lemma to_string_by_shape :
  (forall e,
     if well_formed e
     then exists t, to_string e = Returns t
     else to_string e = Undefined)
  /\ (forall p,
        if arrow_well_formed p
        then exists t, arrow_to_string p = Returns t
        else arrow_to_string p = Undefined).
Proof.
  apply Expression_ExpressionPtr_ind; simpl.
  - intros value. eexists; reflexivity.
  - intros v. eexists; reflexivity.
  - intros Fnc operand IH.
    destruct (arrow_well_formed operand);
      [destruct IH as [t ->]; destruct Fnc; eexists
      | rewrite IH; destruct Fnc]; reflexivity.
  - intros Fnc first IH1 second IH2.
    destruct (arrow_well_formed first), (arrow_well_formed second); simpl;
      repeat match goal with
             | H : exists _, _ = _ |- _ => destruct H as [? ->]
             | H : _ = _ |- _ => rewrite H; clear H
             end;
      simpl; try reflexivity.
    eexists; reflexivity.
  - reflexivity.
  - intros e IH. exact IH.
Qed.

Lemma deriv_by_spine_end :
  (forall e s,
     match spine_end e with
     | nullptr => deriv e s = Undefined
     | make_shared (BinaryOperation _ _ _) => deriv e s = Throws "bar"
     | make_shared _ => exists d, deriv e s = Returns d
     end)
  /\ (forall p s,
        match arrow_spine_end p with
        | nullptr => arrow_deriv p s = Undefined
        | make_shared (BinaryOperation _ _ _) => arrow_deriv p s = Throws "bar"
        | make_shared _ => exists d, arrow_deriv p s = Returns d
        end).
Proof.
  apply Expression_ExpressionPtr_ind; simpl.
  - intros value s. eexists; reflexivity.
  - intros v s. destruct (String.eqb s v); eexists; reflexivity.
  - intros Fnc operand IH s. specialize (IH s).
    destruct (arrow_spine_end operand) as [|[value|v|Fnc' operand'|Fnc' a b]].
    1, 5: rewrite IH; destruct Fnc; reflexivity.
    all: destruct IH as [d ->]; destruct Fnc; simpl; eexists; reflexivity.
  - reflexivity.
  - reflexivity.
  - intros e IH. exact IH.
Qed.

Lemma deriv_well_formed_by_spine_end :
  (forall e s,
     match spine_end e with
     | make_shared (Variable_ _) =>
         well_formed e = true
         /\ exists d, deriv e s = Returns d /\ arrow_well_formed d = true
     | _ => forall d, deriv e s = Returns d -> arrow_well_formed d = false
     end)
  /\ (forall p s,
        match arrow_spine_end p with
        | make_shared (Variable_ _) =>
            arrow_well_formed p = true
            /\ exists d, arrow_deriv p s = Returns d /\ arrow_well_formed d = true
        | _ => forall d, arrow_deriv p s = Returns d -> arrow_well_formed d = false
        end).
Proof.
  apply Expression_ExpressionPtr_ind; simpl.
  - intros value s d H. injection H as <-. reflexivity.
  - intros v s. split; [reflexivity |].
    destruct (String.eqb s v); eexists; split; reflexivity.
  - intros Fnc operand IH s. specialize (IH s).
    destruct (arrow_spine_end operand) as [|[value|v|Fnc' operand'|Fnc' a b]].
    2, 4, 5: intros d H;
      destruct (arrow_deriv operand s) as [d'| |]; destruct Fnc; simpl in H;
      try discriminate; injection H as <-; simpl;
      rewrite ?(IH d' eq_refl), ?andb_false_r; reflexivity.
    + intros d H.
      destruct (arrow_deriv operand s) as [d'| |]; destruct Fnc; simpl in H;
        try discriminate; injection H as <-; simpl;
        rewrite ?(IH d' eq_refl), ?andb_false_r; reflexivity.
    + destruct IH as [Hop [d' [Hd' Hwf]]]. split; [exact Hop |].
      rewrite Hd'. destruct Fnc; simpl; eexists; (split; [reflexivity |]); simpl;
        rewrite ?Hop, ?Hwf; reflexivity.
  - intros Fnc first _ second _ s d H. discriminate.
  - intros s d H. discriminate.
  - intros e IH. exact IH.
Qed.

Lemma second_deriv_ill_formed :
  (forall e s d, deriv e s = Returns d ->
     forall s' d2, arrow_deriv d s' = Returns d2 -> arrow_well_formed d2 = false)
  /\ (forall p s d, arrow_deriv p s = Returns d ->
        forall s' d2, arrow_deriv d s' = Returns d2 -> arrow_well_formed d2 = false).
Proof.
  apply Expression_ExpressionPtr_ind; simpl.
  - intros value s d H s' d2 H2. injection H as <-. discriminate.
  - intros v s d H s' d2 H2.
    destruct (String.eqb s v); injection H as <-; injection H2 as <-; reflexivity.
  - intros Fnc operand IH s d H s' d2 H2.
    destruct (arrow_deriv operand s) as [d'| |] eqn:E; destruct Fnc; simpl in H;
      try discriminate; injection H as <-; simpl in H2; try discriminate.
    destruct (arrow_deriv d' s') as [d2'| |] eqn:E2; simpl in H2; try discriminate.
    injection H2 as <-. simpl. exact (IH s d' E s' d2' E2).
  - intros Fnc first _ second _ s d H. discriminate.
  - intros s d H. discriminate.
  - intros e IH. exact IH.
Qed.

Lemma eval_chain_variable (wrappers : list Fncs.t) (v : string) :
  arrow_eval (unary_chain wrappers (variable v))
  = Throws "Error trying to evaluate a variable.".
Proof.
  induction wrappers as [|Fnc inner IH]; simpl; [reflexivity |].
  simpl in IH. rewrite IH. reflexivity.
Qed.

(** X6.  Evaluating the derivative of a chain of unary operators over a
    variable returns a number only when every operator is a negation: the
    value is then 1 (derivative by the variable's own name) or 0 (by
    another name), negated once per operator.  With any other operator in
    the chain the derivative contains the variable, and evaluating it
    throws. *)
Theorem eval_of_deriv_over_variable (wrappers : list Fncs.t) (v s : string) :
  exists d,
    arrow_deriv (unary_chain wrappers (variable v)) s = Returns d
    /\ arrow_eval d =
       if forallb is_Neg wrappers
       then Returns (Nat.iter (List.length wrappers) PrimFloat.opp
                       (if String.eqb s v then 1%float else 0%float))
       else Throws "Error trying to evaluate a variable.".
Proof.
  induction wrappers as [|Fnc inner [d [Hd He]]]; simpl.
  - destruct (String.eqb s v); eexists; split; reflexivity.
  - pose proof (eval_chain_variable inner v) as Hop. simpl in Hop.
    destruct Fnc; rewrite Hd; simpl; eexists; (split; [reflexivity |]); simpl;
      rewrite ?He, ?Hop; destruct (forallb is_Neg inner); reflexivity.
Qed.

Lemma deriv_name_frame :
  (forall e s s',
     (forall v, spine_end e = variable v -> String.eqb s v = String.eqb s' v) ->
     deriv e s = deriv e s')
  /\ (forall p s s',
        (forall v, arrow_spine_end p = variable v -> String.eqb s v = String.eqb s' v) ->
        arrow_deriv p s = arrow_deriv p s').
Proof.
  apply Expression_ExpressionPtr_ind; simpl; try reflexivity.
  - intros v s s' H. rewrite (H v eq_refl). reflexivity.
  - intros Fnc operand IH s s' H. rewrite (IH s s' H). reflexivity.
  - intros e IH. exact IH.
Qed.

End TreeShapes.

(** ** The rest of the program, and the store *)

Lemma main_try_returns {libm : cmath} (ostream_double : float -> string) :
  main_try ostream_double =
  Returns
    ("expr3 = log(((2.000000 * (2.000000 + ((sin(3.000000) / 2.000000) + 3.000000))) - 3.000000))"
     ++ " expr3.eval() = "
     ++ ostream_double
          (cmath_log (2 * (2 + (cmath_sin 3 / 2 + 3)) - 3))%float
     ++ endl
     ++ "expr4 = log(foo)" ++ endl
     ++ "expr5 = (0.000000 / foo)" ++ endl
     ++ "expr6 = (1.000000 / foo)" ++ endl
     ++ "expr3 + expr4 + expr5 + expr6 = "
     ++ "(((log(((2.000000 * (2.000000 + ((sin(3.000000) / 2.000000) + 3.000000))) - 3.000000)) + log(foo)) + (0.000000 / foo)) + (1.000000 / foo))"
     ++ endl).
Proof.
  unfold main_try.
  replace (std_to_string 2) with "2.000000" by (vm_compute; reflexivity).
  reflexivity.
Qed.

Section StoreShapes.

Variable left_first : bool.
Context {libm : cmath}.

Lemma builds_make_shared_leaf h (e : Store.Expression) t :
  (forall h', nth_error h' (List.length h) = Some e -> denotes h' (Some (List.length h)) t) ->
  builds (Store.make_shared e) h t.
Proof.
  intros Hnew. exists (List.length h), (h ++ [e])%list.
  split; [reflexivity |]. split; [lia |].
  split; [apply Hnew, nth_error_snoc |].
  intros p0 t0. apply denotes_app.
Qed.

(** X9.  Each construction function, given operands that lead to trees,
    returns the address of a node that was not in the store, leading to
    the tree made of those trees, and leaves every existing pointer
    leading to the tree it led to. *)
Theorem construction_builds_the_tree (h : Store.store) :
  (forall x, builds (Store.numeric x) h (numeric x))
  /\ (forall s, builds (Store.variable s) h (variable s))
  /\ (forall p t, denotes h p t ->
        builds (Store.neg p) h (neg t)
        /\ builds (Store.exp p) h (exp t)
        /\ builds (Store.log p) h (log t)
        /\ builds (Store.sin p) h (sin t)
        /\ builds (Store.cos p) h (cos t))
  /\ (forall p q t u, denotes h p t -> denotes h q u ->
        builds (Store.sum p q) h (sum t u)
        /\ builds (Store.difference p q) h (difference t u)
        /\ builds (Store.product p q) h (product t u)
        /\ builds (Store.division p q) h (division t u)).
Proof.
  split; [| split; [| split]].
  - intros x. apply builds_make_shared_leaf. intros h'. apply denotes_Numeric.
  - intros s. apply builds_make_shared_leaf. intros h'. apply denotes_Variable.
  - intros p t Hp.
    repeat split;
      (eexists _, _; split; [reflexivity |]; split; [lia |];
       split; [apply denotes_new_UnaryOperation, Hp | intros p0 t0; apply denotes_app]).
  - intros p q t u Hp Hq.
    repeat split;
      (eexists _, _; split; [reflexivity |]; split; [lia |];
       split; [apply denotes_new_BinaryOperation; assumption
              | intros p0 t0; apply denotes_app]).
Qed.


Ltac denotes_in_larger_store :=
  repeat apply denotes_app; eassumption.

(** X11.  [deriv] makes at most three nodes for each level of the tree
    its pointer leads to, however it ends. *)
Theorem deriv_allocates_at_most_three_per_level (fuel : nat) :
  forall h p t s o h',
    denotes h p t ->
    Store.deriv left_first fuel p s h = Some (o, h') ->
    List.length h' <= List.length h + 3 * arrow_depth t.
Proof.
  induction fuel as [|fuel IH]; intros h p t s o h' Hden H; [discriminate |].
  inversion Hden; subst; simpl in H;
    try rewrite (bind_Returns _ _ _ _ _ (arrow_Some _ _ _ H0)) in H.
  - injection H as _ <-. lia.
  - injection H as _ <-. lia.
  - destruct (String.eqb s v); injection H as _ <-;
      rewrite length_app; simpl; lia.
  - destruct Fnc, left_first; unfold Store.in_order in H;
      repeat first
        [ rewrite bind_assoc in H
        | erewrite bind_Returns in H by reflexivity
        | match type of H with
          | context [Store.bind (Store.deriv ?lf fuel p0 s) _ ?hX] =>
              let E := fresh "E" in
              let Hb := fresh "Hb" in
              destruct (Store.deriv lf fuel p0 s hX)
                as [[[d|what|] h1]|] eqn:E;
              [ rewrite (bind_Returns _ _ _ _ _ E) in H
              | rewrite (bind_Throws _ _ _ _ _ E) in H
              | rewrite (bind_Undefined _ _ _ _ E) in H
              | unfold Store.bind in H; rewrite E in H; discriminate ];
              pose proof (fun D => IH _ _ operand _ _ _ D E) as Hb;
              specialize (Hb ltac:(denotes_in_larger_store)); clear E
          end ];
      cbv [Store.neg Store.sum Store.division Store.product Store.make_shared] in H;
      injection H as _ <-; simpl;
      repeat (rewrite length_app in *; simpl in * ); lia.
  - injection H as _ <-. lia.
Qed.

Lemma nth_error_app_Some {A : Type} (l l' : list A) a e :
  nth_error l a = Some e -> nth_error (l ++ l') a = Some e.
Proof.
  intros H. rewrite nth_error_app1; [exact H |]. apply nth_error_Some. congruence.
Qed.

Lemma nth_error_extends {A : Type} (m : Store.run A) h r h' a e :
  extends m -> m h = Some (r, h') -> nth_error h a = Some e -> nth_error h' a = Some e.
Proof.
  intros Hm H Ha. destruct (Hm _ _ _ H) as [new ->].
  rewrite nth_error_app1; [exact Ha |]. apply nth_error_Some. congruence.
Qed.

(** What a returned derivative of a unary node looks like in the store. *)
Lemma deriv_result_holds_operand (fuel : nat) h a Fnc p0 s q h' :
  nth_error h a = Some (Store.UnaryOperation Fnc p0) ->
  Store.deriv left_first (S fuel) (Some a) s h = Some (Returns q, h') ->
  exists r, q = Some r /\
    match Fnc with
    | Fncs.Neg =>
        exists d, nth_error h' r = Some (Store.UnaryOperation Fncs.Neg d)
    | Fncs.Exp =>
        exists x d,
          nth_error h' r = Some (Store.BinaryOperation plus (Some x) d)
          /\ nth_error h' x = Some (Store.UnaryOperation Fncs.Exp p0)
    | Fncs.Log =>
        exists d, nth_error h' r = Some (Store.BinaryOperation divides d p0)
    | Fncs.Sin =>
        exists d c,
          nth_error h' r = Some (Store.BinaryOperation multiplies d (Some c))
          /\ nth_error h' c = Some (Store.UnaryOperation Fncs.Cos p0)
    | Fncs.Cos =>
        exists d n m,
          nth_error h' r = Some (Store.BinaryOperation multiplies d (Some n))
          /\ nth_error h' n = Some (Store.UnaryOperation Fncs.Neg (Some m))
          /\ nth_error h' m = Some (Store.UnaryOperation Fncs.Sin p0)
    end.
Proof.
  intros Ha H. simpl in H.
  rewrite (bind_Returns _ _ _ _ _ (arrow_Some _ _ _ Ha)) in H.
  destruct Fnc, left_first; unfold Store.in_order in H;
    repeat first
      [ rewrite bind_assoc in H
      | erewrite bind_Returns in H by reflexivity
      | match type of H with
        | context [Store.bind (Store.deriv ?lf fuel p0 s) _ ?hX] =>
            let E := fresh "E" in
            destruct (Store.deriv lf fuel p0 s hX)
              as [[[d|what|] h1]|] eqn:E;
            [ rewrite (bind_Returns _ _ _ _ _ E) in H
            | rewrite (bind_Throws _ _ _ _ _ E) in H; discriminate
            | rewrite (bind_Undefined _ _ _ _ E) in H; discriminate
            | unfold Store.bind in H; rewrite E in H; discriminate ]
        end ];
    cbv [Store.neg Store.sum Store.division Store.product Store.make_shared] in H;
    injection H as <- <-; eexists; (split; [reflexivity |]);
    repeat eexists;
    repeat first
      [ apply nth_error_snoc
      | apply nth_error_app_Some
      | eapply nth_error_extends; [apply deriv_extends | eassumption |] ].
Qed.

(** X12.  The derivative of a unary node holds the operand of that node
    by its address.  When the node's operand leads to a tree whose own
    derivative is returned, [deriv] on the node ends within any bound
    above the depth of the operand and returns the address of a new node
    that leads to the derivative of the tree; and in the store it leaves,
    the division made by [Log::deriv] has as right operand the very
    pointer the input node held, and the [exp], [cos] and [sin] nodes
    made by [Exp::deriv], [Sin::deriv] and [Cos::deriv] hold that same
    pointer.  No node of the operand is copied. *)
Theorem deriv_holds_the_operand_itself (fuel : nat) h a Fnc p0 operand s d' :
  nth_error h a = Some (Store.UnaryOperation Fnc p0) ->
  denotes h p0 operand ->
  arrow_depth operand < fuel ->
  arrow_deriv operand s = Returns d' ->
  exists r h' t',
    Store.deriv left_first (S fuel) (Some a) s h = Some (Returns (Some r), h')
    /\ arrow_deriv (make_shared (UnaryOperation Fnc operand)) s = Returns t'
    /\ denotes h' (Some r) t'
    /\ match Fnc with
       | Fncs.Neg =>
           exists d, nth_error h' r = Some (Store.UnaryOperation Fncs.Neg d)
       | Fncs.Exp =>
           exists x d,
             nth_error h' r = Some (Store.BinaryOperation plus (Some x) d)
             /\ nth_error h' x = Some (Store.UnaryOperation Fncs.Exp p0)
       | Fncs.Log =>
           exists d, nth_error h' r = Some (Store.BinaryOperation divides d p0)
       | Fncs.Sin =>
           exists d c,
             nth_error h' r = Some (Store.BinaryOperation multiplies d (Some c))
             /\ nth_error h' c = Some (Store.UnaryOperation Fncs.Cos p0)
       | Fncs.Cos =>
           exists d n m,
             nth_error h' r = Some (Store.BinaryOperation multiplies d (Some n))
             /\ nth_error h' n = Some (Store.UnaryOperation Fncs.Neg (Some m))
             /\ nth_error h' m = Some (Store.UnaryOperation Fncs.Sin p0)
       end.
Proof.
  intros Ha Hop Hfuel Hd'.
  assert (Hden : denotes h (Some a) (make_shared (UnaryOperation Fnc operand)))
    by (eapply denotes_UnaryOperation; eassumption).
  assert (Hdepth : arrow_depth (make_shared (UnaryOperation Fnc operand)) < S fuel)
    by (simpl; lia).
  destruct (deriv_refines left_first (S fuel) h (Some a) _ s Hden Hdepth)
    as [o [h' [Hrun Hrel]]].
  assert (Ht' : exists t',
             arrow_deriv (make_shared (UnaryOperation Fnc operand)) s = Returns t').
  { simpl. rewrite Hd'. destruct Fnc; eexists; reflexivity. }
  destruct Ht' as [t' Ht']. rewrite Ht' in Hrel.
  destruct Hrel as [q [-> Hq]].
  destruct (deriv_result_holds_operand fuel h a Fnc p0 s q h' Ha Hrun)
    as [r [-> Hshape]].
  exists r, h', t'.
  split; [exact Hrun |]. split; [exact Ht' |]. split; [exact Hq | exact Hshape].
Qed.

End StoreShapes.

(** ** Statements *)

(** X1.  What [p->eval()] does is decided by the shape of the tree: it is
    undefined exactly when some operand in the tree is an empty pointer;
    otherwise it throws the fixed text exactly when a [Variable] occurs
    somewhere in the tree; otherwise it returns a value. *)
Theorem eval_outcome_by_shape {libm : cmath} (p : ExpressionPtr) :
  if arrow_well_formed p
  then if arrow_variable_free p
       then exists x, arrow_eval p = Returns x
       else arrow_eval p = Throws "Error trying to evaluate a variable."
  else arrow_eval p = Undefined.
Proof. exact (proj2 eval_by_shape p). Qed.

(** X2.  [p->to_string()] never throws: it returns a text exactly when no
    operand in the tree is an empty pointer, and is undefined otherwise. *)
Theorem to_string_outcome_by_shape (p : ExpressionPtr) :
  (if arrow_well_formed p
   then exists t, arrow_to_string p = Returns t
   else arrow_to_string p = Undefined)
  /\ forall what, arrow_to_string p <> Throws what.
Proof.
  split; [exact (proj2 to_string_by_shape p) |].
  exact (proj2 to_string_never_throws p).
Qed.

(** X3.  [p->deriv(s)] follows the chain of unary nodes from the root and
    looks at nothing else: it is undefined when the chain ends in an empty
    pointer, throws [bar] when it ends in a binary node (whatever that
    node's operands are), and returns when it ends in a literal or a
    variable. *)
Theorem deriv_outcome_by_spine_end (p : ExpressionPtr) (s : string) :
  match arrow_spine_end p with
  | nullptr => arrow_deriv p s = Undefined
  | make_shared (BinaryOperation _ _ _) => arrow_deriv p s = Throws "bar"
  | make_shared _ => exists d, arrow_deriv p s = Returns d
  end.
Proof. exact (proj2 deriv_by_spine_end p s). Qed.

(** X4.  Differentiating returns a tree without empty pointers exactly
    when the chain of unary nodes from the root ends in a variable; and
    those are exactly the trees for which differentiating and then
    printing returns a text. *)
Theorem deriv_usable_iff_spine_ends_in_variable (p : ExpressionPtr) (s : string) :
  ((exists d, arrow_deriv p s = Returns d /\ arrow_well_formed d = true)
   <-> exists v, arrow_spine_end p = variable v)
  /\ ((exists d t, arrow_deriv p s = Returns d /\ arrow_to_string d = Returns t)
      <-> exists v, arrow_spine_end p = variable v).
Proof.
  assert (Hwf : (exists d, arrow_deriv p s = Returns d /\ arrow_well_formed d = true)
                <-> exists v, arrow_spine_end p = variable v).
  { pose proof (proj2 deriv_well_formed_by_spine_end p s) as H. split.
    - intros [d [Hd Hd_wf]].
      destruct (arrow_spine_end p) as [|[value|v|Fnc operand|Fnc a b]];
        try (rewrite (H d Hd) in Hd_wf; discriminate).
      exists v. reflexivity.
    - intros [v Hv]. rewrite Hv in H. simpl in H. exact (proj2 H). }
  split; [exact Hwf |].
  rewrite <- Hwf. split.
  - intros [d [t [Hd Ht]]]. exists d. split; [exact Hd |].
    pose proof (proj2 to_string_by_shape d) as H.
    destruct (arrow_well_formed d); [reflexivity | congruence].
  - intros [d [Hd Hd_wf]]. exists d.
    pose proof (proj2 to_string_by_shape d) as H. rewrite Hd_wf in H.
    destruct H as [t Ht]. exists t. split; assumption.
Qed.

(** X5.  No second derivative is usable: whenever [deriv] returns [d],
    and [deriv] applied to [d] returns as well, what it returns contains
    an empty pointer. *)
Theorem second_derivative_is_never_well_formed
  (p : ExpressionPtr) (s : string) (d : ExpressionPtr)
  (s' : string) (d2 : ExpressionPtr) :
  arrow_deriv p s = Returns d ->
  arrow_deriv d s' = Returns d2 ->
  arrow_well_formed d2 = false.
Proof.
  intros H H2. exact (proj2 second_deriv_ill_formed p s d H s' d2 H2).
Qed.

Lemma second_derivative_is_never_well_formed_witness :
  arrow_deriv (neg (variable "x")) "x" = Returns (neg (numeric 1))
  /\ arrow_deriv (neg (numeric 1)) "x" = Returns (neg nullptr)
  /\ arrow_well_formed (neg nullptr) = false.
Proof.
  split; [reflexivity |]. split; [reflexivity |].
  exact (second_derivative_is_never_well_formed
           (neg (variable "x")) "x" (neg (numeric 1)) "x" (neg nullptr)
           eq_refl eq_refl).
Defined.

(** X7.  [deriv] reads its name only to compare it with the variable at
    the end of the chain of unary nodes: two names that compare alike
    with that variable (or any two names when the chain does not end in a
    variable) give the same outcome. *)
Theorem deriv_depends_on_name_through_comparison
  (p : ExpressionPtr) (s s' : string) :
  (forall v, arrow_spine_end p = variable v -> String.eqb s v = String.eqb s' v) ->
  arrow_deriv p s = arrow_deriv p s'.
Proof. exact (proj2 deriv_name_frame p s s'). Qed.

Lemma deriv_depends_on_name_through_comparison_witness :
  arrow_deriv (log (variable "foo")) "a" = arrow_deriv (log (variable "foo")) "b".
Proof.
  apply (deriv_depends_on_name_through_comparison (log (variable "foo")) "a" "b").
  intros v H. injection H as <-. reflexivity.
Defined.

Lemma construction_builds_the_tree_witness :
  denotes [Store.Numeric 2; Store.Variable_ "foo"] (Some 0) (numeric 2)
  /\ denotes [Store.Numeric 2; Store.Variable_ "foo"] (Some 1) (variable "foo")
  /\ builds (Store.log (Some 1)) [Store.Numeric 2; Store.Variable_ "foo"]
       (log (variable "foo"))
  /\ builds (Store.division (Some 0) (Some 1)) [Store.Numeric 2; Store.Variable_ "foo"]
       (division (numeric 2) (variable "foo")).
Proof.
  assert (H0 : denotes [Store.Numeric 2; Store.Variable_ "foo"] (Some 0) (numeric 2))
    by (apply denotes_Numeric; reflexivity).
  assert (H1 : denotes [Store.Numeric 2; Store.Variable_ "foo"] (Some 1) (variable "foo"))
    by (apply denotes_Variable; reflexivity).
  split; [exact H0 |]. split; [exact H1 |].
  destruct (construction_builds_the_tree [Store.Numeric 2; Store.Variable_ "foo"])
    as (_ & _ & Hun & Hbin).
  split.
  - exact (proj1 (proj2 (proj2 (Hun (Some 1) (variable "foo") H1)))).
  - exact (proj2 (proj2 (proj2 (Hbin (Some 0) (Some 1) _ _ H0 H1)))).
Defined.


Lemma deriv_allocates_at_most_three_per_level_witness :
  let h := [Store.Variable_ "foo"; Store.UnaryOperation Fncs.Cos (Some 0)] in
  let h' := (h ++ [Store.Numeric 1; Store.UnaryOperation Fncs.Sin (Some 0);
                   Store.UnaryOperation Fncs.Neg (Some 3);
                   Store.BinaryOperation multiplies (Some 2) (Some 4)])%list in
  denotes h (Some 1) (cos (variable "foo"))
  /\ @Store.deriv true 2 (Some 1) "foo" h = Some (Returns (Some 5), h')
  /\ List.length h' <= List.length h + 3 * arrow_depth (cos (variable "foo")).
Proof.
  intros h h'.
  assert (Hden : denotes h (Some 1) (cos (variable "foo"))).
  { eapply denotes_UnaryOperation; [reflexivity |].
    apply denotes_Variable. reflexivity. }
  assert (Hrun : @Store.deriv true 2 (Some 1) "foo" h = Some (Returns (Some 5), h'))
    by reflexivity.
  split; [exact Hden |]. split; [exact Hrun |].
  exact (@deriv_allocates_at_most_three_per_level true 2 h (Some 1) _
           "foo" _ h' Hden Hrun).
Defined.

Lemma deriv_holds_the_operand_itself_witness :
  let h := [Store.Variable_ "foo";
            Store.UnaryOperation Fncs.Log (Some 0);
            Store.UnaryOperation Fncs.Exp (Some 0);
            Store.UnaryOperation Fncs.Sin (Some 0);
            Store.UnaryOperation Fncs.Cos (Some 0)] in
  (nth_error h 1 = Some (Store.UnaryOperation Fncs.Log (Some 0))
   /\ nth_error h 2 = Some (Store.UnaryOperation Fncs.Exp (Some 0))
   /\ nth_error h 3 = Some (Store.UnaryOperation Fncs.Sin (Some 0))
   /\ nth_error h 4 = Some (Store.UnaryOperation Fncs.Cos (Some 0)))
  /\ denotes h (Some 0) (variable "foo")
  /\ arrow_depth (variable "foo") < 2
  /\ arrow_deriv (variable "foo") "foo" = Returns (numeric 1)
  /\ (exists r h' t',
        Store.deriv true 3 (Some 1) "foo" h = Some (Returns (Some r), h')
        /\ arrow_deriv (log (variable "foo")) "foo" = Returns t'
        /\ denotes h' (Some r) t'
        /\ exists d, nth_error h' r
                     = Some (Store.BinaryOperation divides d (Some 0)))
  /\ (exists r h' t',
        Store.deriv true 3 (Some 2) "foo" h = Some (Returns (Some r), h')
        /\ arrow_deriv (exp (variable "foo")) "foo" = Returns t'
        /\ denotes h' (Some r) t'
        /\ exists x d,
             nth_error h' r = Some (Store.BinaryOperation plus (Some x) d)
             /\ nth_error h' x = Some (Store.UnaryOperation Fncs.Exp (Some 0)))
  /\ (exists r h' t',
        Store.deriv false 3 (Some 3) "foo" h = Some (Returns (Some r), h')
        /\ arrow_deriv (sin (variable "foo")) "foo" = Returns t'
        /\ denotes h' (Some r) t'
        /\ exists d c,
             nth_error h' r = Some (Store.BinaryOperation multiplies d (Some c))
             /\ nth_error h' c = Some (Store.UnaryOperation Fncs.Cos (Some 0)))
  /\ (exists r h' t',
        Store.deriv false 3 (Some 4) "foo" h = Some (Returns (Some r), h')
        /\ arrow_deriv (cos (variable "foo")) "foo" = Returns t'
        /\ denotes h' (Some r) t'
        /\ exists d n m,
             nth_error h' r = Some (Store.BinaryOperation multiplies d (Some n))
             /\ nth_error h' n = Some (Store.UnaryOperation Fncs.Neg (Some m))
             /\ nth_error h' m = Some (Store.UnaryOperation Fncs.Sin (Some 0))).
Proof.
  intros h.
  assert (Hop : denotes h (Some 0) (variable "foo"))
    by (apply denotes_Variable; reflexivity).
  assert (Hfuel : arrow_depth (variable "foo") < 2) by (simpl; lia).
  assert (Hd : arrow_deriv (variable "foo") "foo" = Returns (numeric 1))
    by reflexivity.
  split; [repeat split |]. split; [exact Hop |]. split; [exact Hfuel |].
  split; [exact Hd |].
  split; [| split; [| split]].
  - exact (deriv_holds_the_operand_itself true 2 h 1 Fncs.Log (Some 0)
             (variable "foo") "foo" (numeric 1) eq_refl Hop Hfuel Hd).
  - exact (deriv_holds_the_operand_itself true 2 h 2 Fncs.Exp (Some 0)
             (variable "foo") "foo" (numeric 1) eq_refl Hop Hfuel Hd).
  - exact (deriv_holds_the_operand_itself false 2 h 3 Fncs.Sin (Some 0)
             (variable "foo") "foo" (numeric 1) eq_refl Hop Hfuel Hd).
  - exact (deriv_holds_the_operand_itself false 2 h 4 Fncs.Cos (Some 0)
             (variable "foo") "foo" (numeric 1) eq_refl Hop Hfuel Hd).
Defined.
